(** * fakefuse: a read-only filesystem whose shape is a list of paths

    Shallow embedding of [src/fakefuse.py] (class [MyFileSystem]) and the
    properties of its tree builder ([expand_paths_to_dict]) and of its two
    read operations ([getattr], [readdir]).

    Conventions of the embedding:
    - a Python [str] is a [string]; [str.split('/')] is [split];
    - the nested [dict] held in [self.files] keeps its keys in insertion
      order ([list(current.keys())] is observable through [readdir]), so a
      dict is an association list from names to dicts;
    - [raise FuseOSError(errno.E)] is the [Raise E] outcome of a [result];
    - the value read from [time()] is an argument of [getattr]. *)

From Stdlib Require Import String Ascii List Bool ZArith Lia Permutation.
From Stdlib Require Import Floats.SpecFloat.
Import ListNotations.

Open Scope string_scope.
Open Scope list_scope.

Set Warnings "-register-all".

(** ** Python primitives used by the source *)

(** [s.split(sep)] for a one-character separator: the segments between the
    occurrences of [sep]; [n] separators give [n + 1] segments, so the empty
    string splits into one empty segment. *)
Fixpoint split (sep : ascii) (s : string) : list string :=
  match s with
  | EmptyString => [EmptyString]
  | String c s' =>
      if Ascii.eqb c sep then EmptyString :: split sep s'
      else match split sep s' with
           | seg :: segs => String c seg :: segs
           | [] => [String c EmptyString]
           end
  end.

(** Truth value of a [str]: non-empty. *)
Definition truthy (s : string) : bool :=
  match s with
  | EmptyString => false
  | String _ _ => true
  end.

Definition slash : ascii := "/"%char.

(** ** The nested dictionary *)

Inductive dict : Type :=
| Dict (items : list (string * dict)).

Definition items (d : dict) : list (string * dict) :=
  match d with Dict l => l end.

Definition keys (d : dict) : list string := map fst (items d).

Definition len (d : dict) : nat := length (items d).

Fixpoint assoc (k : string) (l : list (string * dict)) : option dict :=
  match l with
  | [] => None
  | (name, child) :: tl => if String.eqb name k then Some child else assoc k tl
  end.

(** [current[part]], [None] standing for [KeyError]. *)
Definition get (part : string) (current : dict) : option dict :=
  assoc part (items current).

(** [part in current]. *)
Definition contains (part : string) (current : dict) : bool :=
  match get part current with
  | Some _ => true
  | None => false
  end.

(** ** Outcomes *)

Inductive errno : Type := ENOENT | ENOSYS.

Inductive result (A : Type) : Type :=
| Ok (a : A)
| Raise (e : errno).

Arguments Ok {A} a.
Arguments Raise {A} e.

(** ** The tree builder *)

(** One round of the inner loop at a segment that is not skipped, acting on
    the items of [current]:
    [if part not in current: current[part] = {}] then
    [current = current[part]], the rest of the loop ([k]) running on that
    child in place.  A new key goes to the end; an existing key keeps its
    position. *)
Fixpoint descend (part : string) (k : dict -> dict)
    (l : list (string * dict)) : list (string * dict) :=
  match l with
  | [] => [(part, k (Dict []))]
  | (name, child) :: tl =>
      if String.eqb name part then (name, k child) :: tl
      else (name, child) :: descend part k tl
  end.

(** The inner loop [for part in parts] started at [current]; the result is
    [current] after the in-place updates. *)
Fixpoint insert_parts (parts : list string) (current : dict) : dict :=
  match parts with
  | [] => current
  | part :: rest =>
      if String.eqb part "." then insert_parts rest current
      else Dict (descend part (insert_parts rest) (items current))
  end.

(** The body of the outer loop for one [path]. *)
Definition insert_path (files : dict) (path : string) : dict :=
  insert_parts (split slash path) files.

Definition expand_paths_to_dict (paths : list string) : dict :=
  fold_left insert_path paths (Dict []).

(** ** The file system object *)

Record MyFileSystem : Type := { files : dict }.

(** [MyFileSystem.__init__]. *)
Definition init (paths : list string) : MyFileSystem :=
  {| files := expand_paths_to_dict paths |}.

(** Python [float], the type of [time()]. *)
Definition float : Type := spec_float.

Record stat : Type := {
  st_mode : Z;
  st_nlink : Z;
  st_size : Z;
  st_ctime : float;
  st_mtime : float;
  st_atime : float
}.

(** [stat.S_IFDIR] is 0o040000. *)
Definition S_IFDIR : Z := 16384.

(** [[part for part in path.split('/') if part]]. *)
Definition query_parts (path : string) : list string :=
  filter truthy (split slash path).

(** The traversal loop that [getattr] and [readdir] both run. *)
Fixpoint walk (parts : list string) (current : dict) : result dict :=
  match parts with
  | [] => Ok current
  | part :: rest =>
      match get part current with
      | None => Raise ENOENT
      | Some child => walk rest child
      end
  end.

(** [getattr(self, path, fh=None)]; [now] is the value [time()] returns. *)
Definition getattr (self : MyFileSystem) (path : string) (fh : option Z)
    (now : float) : result stat :=
  match walk (query_parts path) (files self) with
  | Raise e => Raise e
  | Ok current =>
      let is_dir := Nat.ltb 0 (len current) in
      Ok {| st_mode := Z.lor S_IFDIR 493;
            st_nlink := if is_dir then 2%Z else 1%Z;
            st_size := 0%Z;
            st_ctime := now;
            st_mtime := now;
            st_atime := now |}
  end.

(** [readdir(self, path, fh)]. *)
Definition readdir (self : MyFileSystem) (path : string) (fh : option Z)
    : result (list string) :=
  match walk (query_parts path) (files self) with
  | Raise e => Raise e
  | Ok current => Ok ("." :: ".." :: keys current)
  end.

(** ** The rejected operations

    Each method receives [self] and may update it before it returns or
    raises, so each is a function to an outcome paired with the file system
    it leaves behind. *)

Definition FS (A : Type) : Type := MyFileSystem -> result A * MyFileSystem.

(** [raise FuseOSError(e)]. *)
Definition raise_FuseOSError {A : Type} (e : errno) : FS A :=
  fun self => (Raise e, self).

Definition mkdir (path : string) (mode : Z) : FS unit :=
  raise_FuseOSError ENOSYS.

Definition rmdir (path : string) : FS unit :=
  raise_FuseOSError ENOSYS.

Definition create (path : string) (mode : Z) (fi : option Z) : FS Z :=
  raise_FuseOSError ENOSYS.

Definition open (path : string) (flags : Z) : FS Z :=
  raise_FuseOSError ENOSYS.

Definition read (path : string) (length offset : Z) (fh : option Z)
    : FS string :=
  raise_FuseOSError ENOSYS.

Definition write (path : string) (data : string) (offset : Z)
    (fh : option Z) : FS Z :=
  raise_FuseOSError ENOSYS.

Definition truncate (path : string) (length : Z) (fh : option Z) : FS unit :=
  raise_FuseOSError ENOSYS.

Definition unlink (path : string) : FS unit :=
  raise_FuseOSError ENOSYS.

Definition rename (old new : string) : FS unit :=
  raise_FuseOSError ENOSYS.

(** A call of one of the nine methods with its arguments, as the mount layer
    issues it. *)
Inductive mutation : Type :=
| MakeDirectory (path : string) (mode : Z)
| RemoveDirectory (path : string)
| CreateFile (path : string) (mode : Z) (fi : option Z)
| OpenFile (path : string) (flags : Z)
| ReadFile (path : string) (length offset : Z) (fh : option Z)
| WriteFile (path : string) (data : string) (offset : Z) (fh : option Z)
| TruncateFile (path : string) (length : Z) (fh : option Z)
| UnlinkFile (path : string)
| RenamePath (old new : string).

(** What the caller sees of an outcome: the error raised, if any. *)
Definition signal {A : Type} (r : result A * MyFileSystem)
    : option errno * MyFileSystem :=
  match r with
  | (Ok _, self) => (None, self)
  | (Raise e, self) => (Some e, self)
  end.

Definition perform (m : mutation) (self : MyFileSystem)
    : option errno * MyFileSystem :=
  match m with
  | MakeDirectory path mode => signal (mkdir path mode self)
  | RemoveDirectory path => signal (rmdir path self)
  | CreateFile path mode fi => signal (create path mode fi self)
  | OpenFile path flags => signal (open path flags self)
  | ReadFile path length offset fh => signal (read path length offset fh self)
  | WriteFile path data offset fh => signal (write path data offset fh self)
  | TruncateFile path length fh => signal (truncate path length fh self)
  | UnlinkFile path => signal (unlink path self)
  | RenamePath old new => signal (rename old new self)
  end.

(** ** Vocabulary of the properties *)

(** The segments the builder keeps: those its [continue] does not skip. *)
Definition skip_dot (parts : list string) : list string :=
  filter (fun part => negb (String.eqb part ".")) parts.

(** The segments of an input path as the specification counts them: split
    at the slashes, with the [.] and the empty segments stripped. *)
Definition entry_segments (path : string) : list string :=
  filter (fun part => negb (String.eqb part ".") && truthy part)
         (split slash path).

(** [q] is a prefix of [l]. *)
Fixpoint prefixb (q l : list string) : bool :=
  match q, l with
  | [], _ => true
  | _ :: _, [] => false
  | x :: q', y :: l' => String.eqb x y && prefixb q' l'
  end.

(** The traversal along [q] from [t] finds a node. *)
Definition exists_at (q : list string) (t : dict) : bool :=
  match walk q t with
  | Ok _ => true
  | Raise _ => false
  end.

(** Two attribute outcomes that agree except for the time stamps. *)
Definition same_attrs (r1 r2 : result stat) : Prop :=
  match r1, r2 with
  | Ok a1, Ok a2 =>
      st_mode a1 = st_mode a2 /\ st_nlink a1 = st_nlink a2
      /\ st_size a1 = st_size a2
  | Raise e1, Raise e2 => e1 = e2
  | _, _ => False
  end.

(** Every dictionary reached from [t] has pairwise distinct keys. *)
Definition keys_unique (t : dict) : Prop :=
  forall q n, walk q t = Ok n -> NoDup (keys n).

(** Whether the query names the root: no segment is left. *)
Definition is_root (path : string) : bool :=
  match query_parts path with
  | [] => true
  | _ :: _ => false
  end.

(** The query is a prefix of one of the entries, both taken as stripped
    segment lists. *)
Definition prefix_of_entry (path : string) (paths : list string) : bool :=
  existsb (fun p => prefixb (query_parts path) (entry_segments p)) paths.

(** The path starts with a slash, ends with one, or has two in a row. *)
Definition has_extra_slash (path : string) : Prop :=
  (exists s, path = ("/" ++ s)%string)
  \/ (exists s, path = (s ++ "/")%string)
  \/ (exists s s', path = (s ++ "//" ++ s')%string).

(** A slash put between [s1] and [s2] is leading, trailing, or next to a
    slash that is already there. *)
Definition extra_slash_between (s1 s2 : string) : Prop :=
  s1 = "" \/ s2 = ""
  \/ (exists s, s1 = (s ++ "/")%string)
  \/ (exists s, s2 = ("/" ++ s)%string).

(** The instant used by the closed instances: 0.0. *)
Definition epoch : float := S754_zero false.

(** ** The program entry

    The block under [if __name__ == '__main__'].  [sys.argv] is the script
    name followed by the arguments; [sys.stdin] is given by the lines its
    iteration yields, each with its line terminator when it has one.
    [str.strip()] removes the characters that [str.isspace] accepts from
    both ends; that predicate belongs to Python and is taken as given. *)

Section Entry.

Variable isspace : ascii -> bool.







End Entry.

(** ** Further vocabulary *)

(** The segment list [q] is a prefix of the segments the builder keeps of
    one of the entries. *)
Definition node_of_entry (q : list string) (paths : list string) : bool :=
  existsb (fun p => prefixb q (skip_dot (split slash p))) paths.

(** The outcome is a value, not a raised error. *)
Definition succeeded {A : Type} (r : result A) : bool :=
  match r with
  | Ok _ => true
  | Raise _ => false
  end.

(** The character [c] occurs in [s]. *)
Fixpoint has_char (c : ascii) (s : string) : bool :=
  match s with
  | EmptyString => false
  | String c' s' => Ascii.eqb c' c || has_char c s'
  end.

(** ** Evaluation on the documented examples *)

Example split_ab : split slash "a/b" = ["a"; "b"].
Proof. reflexivity. Qed.

Example split_empty : split slash "" = [""].
Proof. reflexivity. Qed.

Example split_slashes : split slash "/a//b/" = [""; "a"; ""; "b"; ""].
Proof. reflexivity. Qed.

Example expand_doc_example :
  expand_paths_to_dict ["a/b"; "a/c"]
  = Dict [("a", Dict [("b", Dict []); ("c", Dict [])])].
Proof. reflexivity. Qed.

Example readdir_a :
  readdir (init ["a/b"; "a/c"]) "/a" None = Ok ["."; ".."; "b"; "c"].
Proof. reflexivity. Qed.

Example getattr_x : forall now,
  getattr (init ["a/b"; "a/c"]) "/x" None now = Raise ENOENT.
Proof. reflexivity. Qed.

(** ** Splitting and query segments *)

Lemma split_not_nil (sep : ascii) (s : string) : split sep s <> [].
Proof.
  destruct s as [|c s]; simpl; [discriminate|].
  destruct (Ascii.eqb c sep); [discriminate|].
  destruct (split sep s); discriminate.
Qed.

Lemma split_app_sep (sep : ascii) (s1 s2 : string) :
  split sep (s1 ++ String sep s2) = split sep s1 ++ split sep s2.
Proof.
  induction s1 as [|c s1 IH]; simpl.
  - now rewrite Ascii.eqb_refl.
  - destruct (Ascii.eqb c sep); [now rewrite IH|].
    rewrite IH. destruct (split sep s1) as [|seg segs] eqn:E; [|reflexivity].
    now apply split_not_nil in E.
Qed.

Lemma query_parts_app_slash (s1 s2 : string) :
  query_parts (s1 ++ String slash s2) = query_parts s1 ++ query_parts s2.
Proof. unfold query_parts. now rewrite split_app_sep, filter_app. Qed.

Lemma query_parts_empty : query_parts "" = [].
Proof. reflexivity. Qed.

Lemma query_parts_truthy (path part : string) :
  In part (query_parts path) -> truthy part = true.
Proof. unfold query_parts. intros H. now apply filter_In in H. Qed.

(** ** Lookup after one builder step *)

Lemma assoc_descend (part x : string) (k : dict -> dict)
    (l : list (string * dict)) :
  assoc x (descend part k l)
  = if String.eqb part x
    then Some (k (match assoc part l with Some c => c | None => Dict [] end))
    else assoc x l.
Proof.
  induction l as [|[name child] tl IH]; simpl.
  - destruct (String.eqb part x); reflexivity.
  - destruct (String.eqb name part) eqn:E; simpl.
    + apply String.eqb_eq in E; subst name.
      destruct (String.eqb part x); reflexivity.
    + rewrite IH. destruct (String.eqb part x) eqn:Ex; [|reflexivity].
      apply String.eqb_eq in Ex; subst x. now rewrite E.
Qed.

Lemma keys_descend (part : string) (k : dict -> dict)
    (l : list (string * dict)) :
  map fst (descend part k l)
  = match assoc part l with
    | Some _ => map fst l
    | None => map fst l ++ [part]
    end.
Proof.
  induction l as [|[name child] tl IH]; simpl; [reflexivity|].
  destruct (String.eqb name part); simpl; [reflexivity|].
  rewrite IH. destruct (assoc part tl); reflexivity.
Qed.

Lemma descend_fixed (part : string) (k : dict -> dict)
    (l : list (string * dict)) (c : dict) :
  assoc part l = Some c -> k c = c -> descend part k l = l.
Proof.
  induction l as [|[name child] tl IH]; simpl; [discriminate|].
  destruct (String.eqb name part).
  - intros [= ->] ->. reflexivity.
  - intros H1 H2. now rewrite IH.
Qed.

Lemma assoc_In_keys (x : string) (l : list (string * dict)) :
  In x (map fst l) <-> assoc x l <> None.
Proof.
  induction l as [|[name child] tl IH]; simpl.
  - tauto.
  - destruct (String.eqb name x) eqn:E.
    + apply String.eqb_eq in E. split; [discriminate | now left].
    + apply String.eqb_neq in E. rewrite <- IH. tauto.
Qed.

Lemma contains_In_keys (x : string) (d : dict) :
  contains x d = true <-> In x (keys d).
Proof.
  unfold contains, get, keys. rewrite assoc_In_keys.
  destruct (assoc x (items d)); split; congruence.
Qed.

(** ** Traversal *)

Lemma walk_app (q r : list string) (t : dict) :
  walk (q ++ r) t
  = match walk q t with Ok n => walk r n | Raise e => Raise e end.
Proof.
  revert t. induction q as [|x q IH]; intros t; simpl; [reflexivity|].
  destruct (get x t); [apply IH | reflexivity].
Qed.

Lemma walk_raises_ENOENT (q : list string) (t : dict) (e : errno) :
  walk q t = Raise e -> e = ENOENT.
Proof.
  revert t. induction q as [|x q IH]; intros t; simpl; [discriminate|].
  destruct (get x t); [apply IH | congruence].
Qed.

Lemma walk_raise_iff (q : list string) (t : dict) :
  walk q t = Raise ENOENT
  <-> exists pre part post node,
        q = pre ++ part :: post /\ walk pre t = Ok node
        /\ contains part node = false.
Proof.
  revert t. induction q as [|x q IH]; intros t; simpl.
  - split; [discriminate|].
    intros (pre & part & post & node & H & _). now destruct pre.
  - unfold contains. destruct (get x t) as [c|] eqn:G.
    + rewrite IH. split.
      * intros (pre & part & post & node & -> & Hw & Hc).
        exists (x :: pre), part, post, node. simpl. now rewrite G.
      * intros (pre & part & post & node & Hq & Hw & Hc).
        destruct pre as [|y pre]; simpl in *.
        -- injection Hq as -> ->. injection Hw as <-.
           unfold contains in Hc. now rewrite G in Hc.
        -- injection Hq as <- ->. rewrite G in Hw.
           now exists pre, part, post, node.
    + split; [|reflexivity]. intros _.
      exists [], x, q, t. simpl. unfold contains. now rewrite G.
Qed.

Lemma exists_at_nil (t : dict) : exists_at [] t = true.
Proof. reflexivity. Qed.

Lemma exists_at_empty_dict (q : list string) :
  exists_at q (Dict []) = match q with [] => true | _ :: _ => false end.
Proof. destruct q; reflexivity. Qed.

Lemma prefixb_nil_r (q : list string) :
  prefixb q [] = match q with [] => true | _ :: _ => false end.
Proof. destruct q; reflexivity. Qed.

Lemma prefixb_refl (l : list string) : prefixb l l = true.
Proof. induction l; simpl; [|rewrite String.eqb_refl]; auto. Qed.

Lemma prefixb_app (q r : list string) : prefixb q (q ++ r) = true.
Proof. induction q; simpl; [|rewrite String.eqb_refl]; auto. Qed.

(** ** Which nodes the builder creates *)

Lemma exists_at_cons (x : string) (q : list string) (t : dict) :
  exists_at (x :: q) t
  = match assoc x (items t) with
    | Some c => exists_at q c
    | None => false
    end.
Proof. unfold exists_at; simpl; unfold get. now destruct (assoc x (items t)). Qed.

(** After the inner loop has run on [parts], the nodes are those there were
    before and those along the kept segments of [parts]. *)
Lemma exists_at_insert_parts (parts q : list string) (t : dict) :
  exists_at q (insert_parts parts t)
  = exists_at q t || prefixb q (skip_dot parts).
Proof.
  revert t q. induction parts as [|part rest IH]; intros t q; simpl.
  - rewrite prefixb_nil_r. destruct q; [reflexivity | now rewrite orb_false_r].
  - destruct (String.eqb part ".") eqn:Edot; simpl; [apply IH|].
    destruct q as [|x q]; [reflexivity|].
    rewrite !exists_at_cons. simpl. rewrite assoc_descend.
    rewrite (String.eqb_sym x part).
    destruct (String.eqb part x) eqn:Ex.
    + apply String.eqb_eq in Ex; subst x. rewrite IH.
      destruct (assoc part (items t)); [reflexivity|].
      rewrite exists_at_empty_dict. now destruct q.
    + now rewrite orb_false_r.
Qed.

Lemma exists_at_fold (paths : list string) (q : list string) (t : dict) :
  exists_at q (fold_left insert_path paths t)
  = exists_at q t
    || existsb (fun p => prefixb q (skip_dot (split slash p))) paths.
Proof.
  revert t. induction paths as [|p paths IH]; intros t; simpl.
  - now rewrite orb_false_r.
  - rewrite IH. unfold insert_path.
    now rewrite exists_at_insert_parts, orb_assoc.
Qed.

(** The nodes of the built tree: the root, and one node for each prefix of
    the kept segments of each input path. *)
Lemma exists_at_expand (paths : list string) (q : list string) :
  exists_at q (expand_paths_to_dict paths)
  = match q with [] => true | _ :: _ => false end
    || existsb (fun p => prefixb q (skip_dot (split slash p))) paths.
Proof.
  unfold expand_paths_to_dict.
  now rewrite exists_at_fold, exists_at_empty_dict.
Qed.

(** ** Keys stay unique *)

Lemma keys_unique_empty : keys_unique (Dict []).
Proof.
  intros [|x q] n; simpl.
  - intros [= <-]. constructor.
  - discriminate.
Qed.

Lemma keys_unique_child (x : string) (t c : dict) :
  keys_unique t -> get x t = Some c -> keys_unique c.
Proof.
  intros Ht G q n Hw. apply (Ht (x :: q)). simpl. now rewrite G.
Qed.

Lemma keys_unique_insert_parts (parts : list string) (t : dict) :
  keys_unique t -> keys_unique (insert_parts parts t).
Proof.
  revert t. induction parts as [|part rest IH]; intros t Ht; simpl; [exact Ht|].
  destruct (String.eqb part "."); [now apply IH|].
  intros [|x q] n; simpl.
  - intros [= <-]. unfold keys; simpl. rewrite keys_descend.
    pose proof (Ht [] t eq_refl) as Hnd. unfold keys in Hnd.
    destruct (assoc part (items t)) eqn:G; [exact Hnd|].
    apply NoDup_app; [exact Hnd | repeat constructor; simpl; tauto |].
    intros a Ha [<-|[]]. apply assoc_In_keys in Ha. congruence.
  - unfold get; simpl. rewrite assoc_descend.
    destruct (String.eqb part x) eqn:Ex.
    + apply IH. destruct (assoc part (items t)) eqn:G.
      * now apply (keys_unique_child part t).
      * apply keys_unique_empty.
    + destruct (assoc x (items t)) eqn:G; [|discriminate].
      now apply (keys_unique_child x t).
Qed.

Lemma keys_unique_fold (paths : list string) (t : dict) :
  keys_unique t -> keys_unique (fold_left insert_path paths t).
Proof.
  revert t. induction paths as [|p paths IH]; intros t Ht; simpl; [exact Ht|].
  apply IH. now apply keys_unique_insert_parts.
Qed.

Lemma keys_unique_expand (paths : list string) :
  keys_unique (expand_paths_to_dict paths).
Proof. apply keys_unique_fold, keys_unique_empty. Qed.

(** ** Re-inserting what is there *)

Lemma insert_parts_present (parts : list string) (t : dict) :
  exists_at (skip_dot parts) t = true -> insert_parts parts t = t.
Proof.
  revert t. induction parts as [|part rest IH]; intros t; simpl; [reflexivity|].
  destruct (String.eqb part "."); simpl; [apply IH|].
  rewrite exists_at_cons.
  destruct (assoc part (items t)) as [c|] eqn:G; [|discriminate].
  intros Hc. rewrite (descend_fixed part _ _ c G (IH c Hc)).
  now destruct t.
Qed.

Lemma fold_insert_present (paths : list string) (t : dict) :
  (forall p, In p paths -> exists_at (skip_dot (split slash p)) t = true) ->
  fold_left insert_path paths t = t.
Proof.
  induction paths as [|p paths IH]; intros H; simpl; [reflexivity|].
  replace (insert_path t p) with t.
  - apply IH. intros p' Hp'. apply H. now right.
  - unfold insert_path. symmetry. apply insert_parts_present, H. now left.
Qed.

(** ** The attribute record and the listing *)

Lemma getattr_of_walk (self : MyFileSystem) (path : string) (fh : option Z)
    (now : float) (node : dict) :
  walk (query_parts path) (files self) = Ok node ->
  getattr self path fh now
  = Ok {| st_mode := 16877;
          st_nlink := match items node with [] => 1 | _ :: _ => 2 end;
          st_size := 0;
          st_ctime := now; st_mtime := now; st_atime := now |}.
Proof.
  intros H. unfold getattr. rewrite H. unfold len.
  now destruct (items node).
Qed.

Lemma same_attrs_getattr (self : MyFileSystem) (p1 p2 : string)
    (fh1 fh2 : option Z) (now1 now2 : float) :
  query_parts p1 = query_parts p2 ->
  same_attrs (getattr self p1 fh1 now1) (getattr self p2 fh2 now2).
Proof.
  intros E. unfold getattr. rewrite E.
  destruct (walk (query_parts p2) (files self)); simpl; auto.
Qed.

(** C1 (the code departs from the claim).  The builder skips the [.]
    segments only: the empty segment that the trailing slash of ['a/']
    leaves is inserted as a child named [''], so [['./a', 'a/']] and [['a']]
    build different trees, and the difference shows in both queries on
    [/a]. *)
Theorem expand_keeps_empty_segment :
  expand_paths_to_dict ["./a"; "a/"] = Dict [("a", Dict [("", Dict [])])]
  /\ expand_paths_to_dict ["a"] = Dict [("a", Dict [])]
  /\ expand_paths_to_dict ["./a"; "a/"] <> expand_paths_to_dict ["a"]
  /\ readdir (init ["./a"; "a/"]) "/a" None = Ok ["."; ".."; ""]
  /\ readdir (init ["a"]) "/a" None = Ok ["."; ".."].
Proof. repeat split; try reflexivity. discriminate. Qed.

(** C2 (the code departs from the claim).  For the one-entry list
    [['a//b']] the stripped segments are [a], [b], so [/a/b] is a prefix of
    the entry; the builder has put [b] under the child named [''] of [a],
    and [getattr] on [/a/b] raises [ENOENT]. *)
Theorem prefix_lost_behind_empty_segment :
  entry_segments "a//b" = ["a"; "b"]
  /\ query_parts "/a/b" = ["a"; "b"]
  /\ expand_paths_to_dict ["a//b"]
     = Dict [("a", Dict [("", Dict [("b", Dict [])])])]
  /\ forall fh now, getattr (init ["a//b"]) "/a/b" fh now = Raise ENOENT.
Proof. repeat split. Qed.

(** C3.  On a path that resolves to [node], [getattr] returns the record
    with mode [S_IFDIR | 0o755] (the same for every node), link count 2 when
    [node] has a child and 1 when it has none, size 0, and the three time
    stamps equal to the clock value read by the call. *)
Theorem getattr_attributes (self : MyFileSystem) (path : string)
    (fh : option Z) (now : float) (node : dict) :
  walk (query_parts path) (files self) = Ok node ->
  exists a,
    getattr self path fh now = Ok a
    /\ st_mode a = Z.lor S_IFDIR 493
    /\ (keys node <> [] -> st_nlink a = 2%Z)
    /\ (keys node = [] -> st_nlink a = 1%Z)
    /\ st_size a = 0%Z
    /\ st_ctime a = now /\ st_mtime a = now /\ st_atime a = now.
Proof.
  intros H. rewrite (getattr_of_walk _ _ _ _ _ H).
  eexists; split; [reflexivity|]. simpl. unfold keys.
  destruct (items node); simpl; repeat split; congruence.
Qed.

(** The scenario of C3: after [build(['a', 'a/b'])], [/a] resolves to the
    node whose only child is [b], and its link count is 2. *)
Lemma getattr_attributes_witness :
  walk (query_parts "/a") (files (init ["a"; "a/b"])) = Ok (Dict [("b", Dict [])])
  /\ exists a,
       getattr (init ["a"; "a/b"]) "/a" None epoch = Ok a
       /\ st_nlink a = 2%Z /\ st_size a = 0%Z
       /\ st_ctime a = epoch /\ st_mtime a = epoch /\ st_atime a = epoch.
Proof.
  split; [reflexivity|].
  destruct (getattr_attributes (init ["a"; "a/b"]) "/a" None epoch
              (Dict [("b", Dict [])]) eq_refl)
    as (a & Ha & _ & H2 & _ & Hs & Hc & Hm & Hat).
  exists a. repeat split; try assumption.
  apply H2. discriminate.
Defined.



(** C5.  Each of the nine rejected operations raises [ENOSYS] whatever its
    arguments and whatever the file system holds, and leaves the file system
    as it was: every later [getattr] and [readdir] answers as before, up to
    the time stamps (and with them when the clock reads the same). *)
Theorem mutations_rejected (m : mutation) (self : MyFileSystem) :
  perform m self = (Some ENOSYS, self)
  /\ (forall other, fst (perform m other) = fst (perform m self))
  /\ (forall path fh now now',
         same_attrs (getattr (snd (perform m self)) path fh now')
                    (getattr self path fh now)
         /\ getattr (snd (perform m self)) path fh now
            = getattr self path fh now
         /\ readdir (snd (perform m self)) path fh = readdir self path fh).
Proof.
  assert (E : forall s, perform m s = (Some ENOSYS, s))
    by (intros s; destruct m; reflexivity).
  split; [apply E|]. split.
  - intros other. now rewrite !E.
  - intros path fh now now'. rewrite E. simpl.
    split; [now apply same_attrs_getattr | split; reflexivity].
Qed.

(** ** Prefixes of the stripped entries *)

Lemma entry_segments_skip_dot (path : string) :
  entry_segments path = filter truthy (skip_dot (split slash path)).
Proof.
  unfold entry_segments, skip_dot.
  induction (split slash path) as [|x l IH]; simpl; [reflexivity|].
  destruct (String.eqb x "."); simpl; [exact IH|].
  destruct (truthy x); now rewrite IH.
Qed.

Lemma prefixb_filter_truthy (q l : list string) :
  forallb truthy q = true ->
  prefixb q l = true -> prefixb q (filter truthy l) = true.
Proof.
  revert l. induction q as [|x q IH]; intros l Hq; [reflexivity|].
  simpl in Hq. apply andb_prop in Hq as [Hx Hq].
  destruct l as [|y l]; simpl; [discriminate|].
  intros H. apply andb_prop in H as [Exy H].
  apply String.eqb_eq in Exy; subst y. rewrite Hx. simpl.
  rewrite String.eqb_refl. now apply IH.
Qed.

Lemma query_parts_all_truthy (path : string) :
  forallb truthy (query_parts path) = true.
Proof. apply forallb_filter. Qed.

Lemma walk_fails_off_prefix (paths : list string) (path : string) :
  is_root path = false ->
  prefix_of_entry path paths = false ->
  walk (query_parts path) (expand_paths_to_dict paths) = Raise ENOENT.
Proof.
  unfold is_root, prefix_of_entry. intros Hroot Hpre.
  pose proof (exists_at_expand paths (query_parts path)) as E.
  assert (Hno : existsb (fun p => prefixb (query_parts path)
                                    (skip_dot (split slash p))) paths = false).
  { destruct (existsb _ paths) eqn:Ex in |- *; [|reflexivity].
    apply existsb_exists in Ex as (p & Hin & Hp).
    rewrite <- Hpre. symmetry. apply existsb_exists. exists p. split; [exact Hin|].
    rewrite entry_segments_skip_dot.
    apply prefixb_filter_truthy; [apply query_parts_all_truthy | exact Hp]. }
  rewrite Hno in E. unfold exists_at in E.
  destruct (query_parts path); [discriminate|].
  destruct (walk _ _) as [n|e] eqn:W; [discriminate|].
  now rewrite (walk_raises_ENOENT _ _ _ W).
Qed.

(** Where no entry holds an empty segment, every prefix of its stripped
    segments is a node: the part of C2 that the builder does deliver. *)
Lemma getattr_prefix_of_clean_entry (paths : list string) (p path : string)
    (fh : option Z) (now : float) :
  In p paths ->
  forallb truthy (split slash p) = true ->
  prefixb (query_parts path) (entry_segments p) = true ->
  exists a, getattr (init paths) path fh now = Ok a.
Proof.
  intros Hin Hclean Hpre.
  assert (E : exists_at (query_parts path) (expand_paths_to_dict paths) = true).
  { rewrite exists_at_expand. apply orb_true_iff. right.
    apply existsb_exists. exists p. split; [exact Hin|].
    rewrite entry_segments_skip_dot in Hpre.
    replace (filter truthy (skip_dot (split slash p)))
      with (skip_dot (split slash p)) in Hpre; [exact Hpre|].
    symmetry. apply forallb_filter_id. unfold skip_dot.
    rewrite forallb_forall in *. intros x Hx. apply Hclean.
    now apply filter_In in Hx. }
  unfold exists_at in E. unfold getattr, init; simpl.
  destruct (walk _ _); [eexists; reflexivity | discriminate].
Qed.

(** Case split on the outcome of the traversal in the goal; a raised error
    is [ENOENT]. *)
Ltac walk_outcome :=
  let W := fresh "W" in
  destruct (walk _ _) eqn:W;
  [ try (split; discriminate); try discriminate
  | apply walk_raises_ENOENT in W; subst;
    try tauto; try (intros [= <-]; reflexivity) ].

(** C6, as stated, fails at the root: with no entry at all the query [/] is
    a prefix of no entry, and [getattr] answers it. *)
Lemma root_found_without_entries :
  ~ (forall paths path fh now,
        prefix_of_entry path paths = false ->
        getattr (init paths) path fh now = Raise ENOENT).
Proof.
  intros H. specialize (H [] "/" None epoch eq_refl). discriminate H.
Qed.

(** C6, amended.  A query that does not name the root and whose segments
    are a prefix of no entry (stripped of [.] and empty segments) makes
    [getattr] raise [ENOENT].  In every file system [getattr] and [readdir]
    raise [ENOENT] exactly when the traversal reaches a node that lacks the
    next segment of the query, and they raise nothing else. *)
Theorem getattr_not_found (paths : list string) (self : MyFileSystem)
    (path : string) (fh : option Z) (now : float) :
  (is_root path = false ->
   prefix_of_entry path paths = false ->
   getattr (init paths) path fh now = Raise ENOENT)
  /\ (getattr self path fh now = Raise ENOENT
      <-> exists pre part post node,
            query_parts path = pre ++ part :: post
            /\ walk pre (files self) = Ok node
            /\ contains part node = false)
  /\ (readdir self path fh = Raise ENOENT
      <-> exists pre part post node,
            query_parts path = pre ++ part :: post
            /\ walk pre (files self) = Ok node
            /\ contains part node = false)
  /\ (forall e, getattr self path fh now = Raise e -> e = ENOENT)
  /\ (forall e, readdir self path fh = Raise e -> e = ENOENT).
Proof.
  split; [|split; [|split; [|split]]].
  - intros Hroot Hpre. unfold getattr, init; simpl.
    now rewrite walk_fails_off_prefix.
  - rewrite <- walk_raise_iff. unfold getattr. walk_outcome.
  - rewrite <- walk_raise_iff. unfold readdir. walk_outcome.
  - intros e. unfold getattr. walk_outcome.
  - intros e. unfold readdir. walk_outcome.
Qed.

Lemma getattr_not_found_witness :
  is_root "/x" = false
  /\ prefix_of_entry "/x" ["a/b"; "a/c"] = false
  /\ getattr (init ["a/b"; "a/c"]) "/x" None epoch = Raise ENOENT.
Proof.
  split; [reflexivity|]. split; [reflexivity|].
  apply (proj1 (getattr_not_found ["a/b"; "a/c"] (init []) "/x" None epoch));
    reflexivity.
Defined.

(** ** Idempotence and order *)

Lemma entry_present_after_expand (paths : list string) (p : string) :
  In p paths ->
  exists_at (skip_dot (split slash p)) (expand_paths_to_dict paths) = true.
Proof.
  intros Hin. rewrite exists_at_expand. apply orb_true_iff. right.
  apply existsb_exists. exists p. split; [exact Hin | apply prefixb_refl].
Qed.

(** C7.  Building from the list followed by itself gives the very tree
    built from the list, so [readdir] answers alike on every path; and
    running the builder's loop body a second time on the same path changes
    nothing. *)
Theorem expand_idempotent (paths : list string) :
  expand_paths_to_dict (paths ++ paths) = expand_paths_to_dict paths
  /\ (forall path fh,
         readdir (init (paths ++ paths)) path fh = readdir (init paths) path fh)
  /\ (forall files p,
         insert_path (insert_path files p) p = insert_path files p).
Proof.
  assert (E : expand_paths_to_dict (paths ++ paths)
              = expand_paths_to_dict paths).
  { unfold expand_paths_to_dict at 1. rewrite fold_left_app.
    apply fold_insert_present. intros p Hin.
    now apply entry_present_after_expand. }
  split; [exact E|]. split.
  - intros path fh. unfold init. now rewrite E.
  - intros t p. unfold insert_path. apply insert_parts_present.
    rewrite exists_at_insert_parts, prefixb_refl. apply orb_true_r.
Qed.

Lemma existsb_rev_eq {A : Type} (f : A -> bool) (l : list A) :
  existsb f (rev l) = existsb f l.
Proof.
  induction l as [|x l IH]; simpl; [reflexivity|].
  rewrite existsb_app, IH. simpl. rewrite orb_false_r. apply orb_comm.
Qed.

Lemma In_keys_exists_at (q : list string) (t n : dict) (k : string) :
  walk q t = Ok n -> (In k (keys n) <-> exists_at (q ++ [k]) t = true).
Proof.
  intros W. unfold exists_at. rewrite walk_app, W. simpl.
  rewrite <- contains_In_keys. unfold contains.
  destruct (get k n); split; congruence.
Qed.

(** C8.  The tree built from the reversed list has the same shape as the
    tree built from the list: a segment list leads to a node in one exactly
    when it does in the other, and the two nodes then have the same child
    names (the same set, each name once), though not always in the same
    order. *)
Theorem expand_order_insensitive (paths : list string) (q : list string) :
  exists_at q (expand_paths_to_dict (rev paths))
  = exists_at q (expand_paths_to_dict paths)
  /\ match walk q (expand_paths_to_dict paths),
           walk q (expand_paths_to_dict (rev paths)) with
     | Ok n1, Ok n2 =>
         (forall k, In k (keys n1) <-> In k (keys n2))
         /\ Permutation (keys n1) (keys n2)
     | Raise e1, Raise e2 => e1 = e2
     | _, _ => False
     end.
Proof.
  assert (E : forall r, exists_at r (expand_paths_to_dict (rev paths))
                        = exists_at r (expand_paths_to_dict paths)).
  { intros r. now rewrite !exists_at_expand, existsb_rev_eq. }
  split; [apply E|].
  pose proof (E q) as Eq. unfold exists_at in Eq.
  destruct (walk q (expand_paths_to_dict paths)) as [n1|e1] eqn:W1;
    destruct (walk q (expand_paths_to_dict (rev paths))) as [n2|e2] eqn:W2;
    try discriminate.
  - assert (S : forall k, In k (keys n1) <-> In k (keys n2)).
    { intros k. rewrite (In_keys_exists_at _ _ _ k W1).
      rewrite (In_keys_exists_at _ _ _ k W2). now rewrite E. }
    split; [exact S|].
    apply NoDup_Permutation; [| |exact S].
    + apply (keys_unique_expand _ _ _ W1).
    + apply (keys_unique_expand _ _ _ W2).
  - rewrite (walk_raises_ENOENT _ _ _ W1). symmetry.
    apply (walk_raises_ENOENT _ _ _ W2).
Qed.

(** The order of the keys does follow the order of the input. *)
Example listing_order_follows_input :
  readdir (init ["a"; "b"]) "/" None = Ok ["."; ".."; "a"; "b"]
  /\ readdir (init (rev ["a"; "b"])) "/" None = Ok ["."; ".."; "b"; "a"].
Proof. split; reflexivity. Qed.

(** ** Slashes in entries and in queries *)

Lemma append_assoc (a b c : string) :
  ((a ++ b) ++ c = a ++ b ++ c)%string.
Proof. induction a as [|x a IH]; simpl; [reflexivity | now rewrite IH]. Qed.

Lemma append_empty_r (a : string) : (a ++ "")%string = a.
Proof. induction a as [|x a IH]; simpl; [reflexivity | now rewrite IH]. Qed.

Lemma query_parts_insert_slash (s1 s2 : string) :
  query_parts (s1 ++ "/" ++ s2)%string = query_parts s1 ++ query_parts s2.
Proof. exact (query_parts_app_slash s1 s2). Qed.

Lemma query_parts_leading_slash (s : string) :
  query_parts ("/" ++ s)%string = query_parts s.
Proof. exact (query_parts_insert_slash "" s). Qed.

Lemma extra_slash_leaves_empty_segment (p : string) :
  has_extra_slash p -> In "" (split slash p).
Proof.
  intros [[s ->] | [[s ->] | (s & s' & ->)]].
  - simpl. now left.
  - change (s ++ "/")%string with (s ++ String slash "")%string. rewrite split_app_sep.
    apply in_or_app. right. simpl. now left.
  - change (s ++ "//" ++ s')%string
      with (s ++ String slash (String slash s'))%string.
    rewrite split_app_sep. apply in_or_app. right. simpl. now left.
Qed.

Lemma extra_slash_same_parts (s1 s2 : string) :
  extra_slash_between s1 s2 ->
  query_parts (s1 ++ "/" ++ s2)%string = query_parts (s1 ++ s2)%string.
Proof.
  rewrite query_parts_insert_slash.
  intros [-> | [-> | [[s ->] | [s ->]]]].
  - reflexivity.
  - now rewrite append_empty_r, query_parts_empty, app_nil_r.
  - rewrite append_assoc, query_parts_insert_slash.
    change (s ++ "/")%string with (s ++ "/" ++ "")%string.
    now rewrite query_parts_insert_slash, query_parts_empty, app_nil_r.
  - now rewrite query_parts_insert_slash, query_parts_leading_slash.
Qed.

(** C9.  An entry with a leading, trailing or doubled slash puts a node
    named with the empty string into the built tree.  After [build(['a/'])]
    the node [a] has the one child [''], so [getattr] on [/a] reports link
    count 2 and [readdir] on [/a] lists [.], [..] and ['']; no query reaches
    that child, since the segments of a query never include the empty
    string. *)
Theorem empty_segment_becomes_node :
  (forall paths p,
      In p paths -> has_extra_slash p ->
      exists pre,
        prefixb (pre ++ [""]) (skip_dot (split slash p)) = true
        /\ exists_at (pre ++ [""]) (expand_paths_to_dict paths) = true)
  /\ expand_paths_to_dict ["a/"] = Dict [("a", Dict [("", Dict [])])]
  /\ (forall fh now,
         exists a, getattr (init ["a/"]) "/a" fh now = Ok a
                   /\ st_nlink a = 2%Z)
  /\ (forall fh, readdir (init ["a/"]) "/a" fh = Ok ["."; ".."; ""])
  /\ (forall path, ~ In "" (query_parts path))
  /\ (forall path, query_parts path <> ["a"; ""]).
Proof.
  assert (Hq : forall path, ~ In "" (query_parts path)).
  { intros path H. apply query_parts_truthy in H. discriminate. }
  split; [|repeat split].
  - intros paths p Hin Hs.
    apply extra_slash_leaves_empty_segment in Hs.
    assert (Hk : In "" (skip_dot (split slash p)))
      by (apply filter_In; split; [exact Hs | reflexivity]).
    apply in_split in Hk as (pre & post & Hk). exists pre.
    assert (Hp : prefixb (pre ++ [""]) (skip_dot (split slash p)) = true).
    { rewrite Hk.
      replace (pre ++ "" :: post) with ((pre ++ [""]) ++ post)
        by (now rewrite <- app_assoc).
      apply prefixb_app. }
    split; [exact Hp|].
    rewrite exists_at_expand. apply orb_true_iff. right.
    apply existsb_exists. now exists p.
  - intros fh now. eexists. split; reflexivity.
  - exact Hq.
  - intros path E. apply (Hq path). rewrite E. simpl. tauto.
Qed.

Lemma empty_segment_becomes_node_witness :
  In "/a" ["b"; "/a"] /\ has_extra_slash "/a"
  /\ exists pre, exists_at (pre ++ [""]) (expand_paths_to_dict ["b"; "/a"]) = true.
Proof.
  assert (Hin : In "/a" ["b"; "/a"]) by (simpl; tauto).
  assert (Hs : has_extra_slash "/a") by (left; exists "a"; reflexivity).
  split; [exact Hin|]. split; [exact Hs|].
  destruct (proj1 empty_segment_becomes_node ["b"; "/a"] "/a" Hin Hs)
    as (pre & _ & H).
  now exists pre.
Defined.

(** C10.  A slash added in front of a query, behind it, or next to a slash
    it already has does not change its segments, hence neither the outcome
    of [getattr] (up to the time stamps) nor that of [readdir]; the same
    holds read backwards for a slash removed.  The empty path, [/] and [//]
    all resolve to the root. *)
Theorem query_slash_normalized (self : MyFileSystem) :
  (forall s1 s2 fh fh' now now',
      extra_slash_between s1 s2 ->
      query_parts (s1 ++ "/" ++ s2)%string = query_parts (s1 ++ s2)%string
      /\ same_attrs (getattr self (s1 ++ "/" ++ s2)%string fh now)
                    (getattr self (s1 ++ s2)%string fh' now')
      /\ getattr self (s1 ++ "/" ++ s2)%string fh now
         = getattr self (s1 ++ s2)%string fh now
      /\ readdir self (s1 ++ "/" ++ s2)%string fh = readdir self (s1 ++ s2)%string fh')
  /\ (forall path,
         In path [""; "/"; "//"] ->
         walk (query_parts path) (files self) = Ok (files self)
         /\ (forall fh, readdir self path fh
                        = Ok (["."; ".."] ++ keys (files self)))
         /\ (forall fh now, exists a, getattr self path fh now = Ok a)).
Proof.
  split.
  - intros s1 s2 fh fh' now now' H.
    pose proof (extra_slash_same_parts s1 s2 H) as E.
    split; [exact E|]. split; [now apply same_attrs_getattr|].
    unfold getattr, readdir. now rewrite E.
  - intros path [<- | [<- | [<- | []]]];
      (split; [reflexivity|]; split; [reflexivity|];
       intros fh now; eexists; reflexivity).
Qed.

Lemma query_slash_normalized_witness :
  extra_slash_between "/a/" "b"
  /\ readdir (init ["a/b"]) "/a//b" None = readdir (init ["a/b"]) "/a/b" None
  /\ readdir (init ["a/b"]) "/a//b" None = Ok ["."; ".."].
Proof.
  assert (H : extra_slash_between "/a/" "b")
    by (right; right; left; exists "/a"; reflexivity).
  split; [exact H|].
  destruct (proj1 (query_slash_normalized (init ["a/b"]))
              "/a/" "b" None None epoch epoch H) as (_ & _ & _ & R).
  split; [exact R | reflexivity].
Defined.

(** ** What resolves in a built file system *)

Lemma exists_at_init (paths : list string) (path : string) :
  exists_at (query_parts path) (files (init paths))
  = is_root path || node_of_entry (query_parts path) paths.
Proof. unfold init; simpl. now rewrite exists_at_expand. Qed.

Lemma getattr_succeeds (self : MyFileSystem) (path : string)
    (fh : option Z) (now : float) :
  succeeded (getattr self path fh now)
  = exists_at (query_parts path) (files self).
Proof. unfold getattr, exists_at. now destruct (walk _ _). Qed.

Lemma readdir_succeeds (self : MyFileSystem) (path : string)
    (fh : option Z) :
  succeeded (readdir self path fh)
  = exists_at (query_parts path) (files self).
Proof. unfold readdir, exists_at. now destruct (walk _ _). Qed.

Lemma getattr_raises_ENOENT (self : MyFileSystem) (path : string)
    (fh : option Z) (now : float) (e : errno) :
  getattr self path fh now = Raise e -> e = ENOENT.
Proof. unfold getattr. walk_outcome. Qed.

Lemma readdir_raises_ENOENT (self : MyFileSystem) (path : string)
    (fh : option Z) (e : errno) :
  readdir self path fh = Raise e -> e = ENOENT.
Proof. unfold readdir. walk_outcome. Qed.

Lemma succeeded_true {A : Type} (r : result A) :
  succeeded r = true <-> exists a, r = Ok a.
Proof.
  destruct r as [a|e]; simpl; split; try discriminate.
  - intros _. now exists a.
  - reflexivity.
  - intros [a H]. discriminate H.
Qed.

Lemma child_iff_entry (paths : list string) (q : list string) (n : dict)
    (k : string) :
  walk q (expand_paths_to_dict paths) = Ok n ->
  (In k (keys n) <-> node_of_entry (q ++ [k]) paths = true).
Proof.
  intros W. rewrite (In_keys_exists_at _ _ _ k W), exists_at_expand.
  unfold node_of_entry. now destruct q.
Qed.

Lemma prefixb_In (q l : list string) (x : string) :
  prefixb q l = true -> In x q -> In x l.
Proof.
  revert l. induction q as [|y q IH]; intros l H Hin; [contradiction|].
  destruct l as [|z l]; simpl in H; [discriminate|].
  apply andb_prop in H as [E H]. apply String.eqb_eq in E; subst z.
  destruct Hin as [<-|Hin]; [now left | right; now apply IH].
Qed.

Lemma skip_dot_no_dot (parts : list string) : ~ In "." (skip_dot parts).
Proof. unfold skip_dot. intros H. apply filter_In in H as [_ H]. discriminate. Qed.

Lemma split_no_sep (sep : ascii) (s seg : string) :
  In seg (split sep s) -> has_char sep seg = false.
Proof.
  revert seg. induction s as [|c s IH]; intros seg; simpl.
  - intros [<-|[]]. reflexivity.
  - destruct (Ascii.eqb c sep) eqn:E.
    + intros [<-|H]; [reflexivity | now apply IH].
    + destruct (split sep s) as [|hd tl] eqn:S.
      * intros [<-|[]]. simpl. now rewrite E.
      * intros [<-|H].
        -- simpl. rewrite E. apply IH. now left.
        -- apply IH. now right.
Qed.

(** X1.  In the file system built from [paths], a query resolves exactly
    when it names the root or its segments are a prefix of the segments the
    builder keeps of some entry (all but the [.] ones, the empty ones
    included); [getattr] and [readdir] succeed on the same queries, and
    otherwise raise [ENOENT]. *)
Theorem resolves_iff_kept_prefix (paths : list string) (path : string)
    (fh : option Z) (now : float) :
  ((exists a, getattr (init paths) path fh now = Ok a)
   <-> is_root path = true
       \/ node_of_entry (query_parts path) paths = true)
  /\ ((exists names, readdir (init paths) path fh = Ok names)
      <-> is_root path = true
          \/ node_of_entry (query_parts path) paths = true)
  /\ (getattr (init paths) path fh now = Raise ENOENT
      <-> is_root path = false
          /\ node_of_entry (query_parts path) paths = false)
  /\ (readdir (init paths) path fh = Raise ENOENT
      <-> is_root path = false
          /\ node_of_entry (query_parts path) paths = false).
Proof.
  pose proof (exists_at_init paths path) as E.
  pose proof (getattr_succeeds (init paths) path fh now) as G.
  pose proof (readdir_succeeds (init paths) path fh) as R.
  rewrite <- !succeeded_true, G, R, E, orb_true_iff.
  rewrite E in G, R. rewrite <- orb_false_iff.
  split; [tauto|]. split; [tauto|]. split.
  - destruct (getattr (init paths) path fh now) as [a|e] eqn:Hg; simpl in G.
    + rewrite <- G. split; discriminate.
    + rewrite <- G. split; [reflexivity|]. intros _. f_equal.
      apply (getattr_raises_ENOENT _ _ _ _ _ Hg).
  - destruct (readdir (init paths) path fh) as [a|e] eqn:Hr; simpl in R.
    + rewrite <- R. split; discriminate.
    + rewrite <- R. split; [reflexivity|]. intros _. f_equal.
      apply (readdir_raises_ENOENT _ _ _ _ Hr).
Qed.

Lemma readdir_inv (self : MyFileSystem) (path : string) (fh : option Z)
    (names : list string) :
  readdir self path fh = Ok names ->
  exists n, walk (query_parts path) (files self) = Ok n
            /\ names = "." :: ".." :: keys n.
Proof.
  unfold readdir. destruct (walk _ _) as [n|e]; [|discriminate].
  intros [= <-]. now exists n.
Qed.

Lemma getattr_inv (self : MyFileSystem) (path : string) (fh : option Z)
    (now : float) (a : stat) :
  getattr self path fh now = Ok a ->
  exists n, walk (query_parts path) (files self) = Ok n
            /\ st_nlink a = match keys n with [] => 1%Z | _ :: _ => 2%Z end.
Proof.
  unfold getattr. destruct (walk _ _) as [n|e]; [|discriminate].
  intros [= <-]. exists n. split; [reflexivity|]. simpl.
  unfold len, keys. now destruct (items n).
Qed.

(** X2.  In a built file system the names that [readdir] lists after [.]
    and [..] are, each once, exactly the segments that follow the query in
    some entry: [k] is listed under [path] when the segments of [path]
    followed by [k] are a prefix of the kept segments of an entry. *)
Theorem readdir_lists_next_segments (paths : list string) (path : string)
    (fh : option Z) (names : list string) :
  readdir (init paths) path fh = Ok names ->
  exists kids,
    names = "." :: ".." :: kids
    /\ NoDup kids
    /\ forall k, In k kids
                 <-> node_of_entry (query_parts path ++ [k]) paths = true.
Proof.
  intros H. apply readdir_inv in H as (n & W & ->). exists (keys n).
  split; [reflexivity|]. split.
  - apply (keys_unique_expand paths _ _ W).
  - intros k. apply (child_iff_entry paths _ _ k W).
Qed.

Lemma readdir_lists_next_segments_witness :
  readdir (init ["x/y"; "./x/z"; "x/y/w"]) "x" None = Ok ["."; ".."; "y"; "z"]
  /\ exists kids,
       ["."; ".."; "y"; "z"] = "." :: ".." :: kids
       /\ (In "z" kids
           <-> node_of_entry (query_parts "x" ++ ["z"])
                 ["x/y"; "./x/z"; "x/y/w"] = true).
Proof.
  split; [reflexivity|].
  destruct (readdir_lists_next_segments ["x/y"; "./x/z"; "x/y/w"] "x" None
              ["."; ".."; "y"; "z"] eq_refl) as (kids & E & _ & H).
  exists kids. split; [exact E | apply H].
Defined.

(** X3.  In a built file system [getattr] reports link count 2 on a path
    exactly when some entry goes on below it (has one more kept segment
    after the segments of the path), and link count 1 exactly when none
    does. *)
Theorem getattr_nlink_iff_extended (paths : list string) (path : string)
    (fh : option Z) (now : float) (a : stat) :
  getattr (init paths) path fh now = Ok a ->
  (st_nlink a = 2%Z
   <-> exists k, node_of_entry (query_parts path ++ [k]) paths = true)
  /\ (st_nlink a = 1%Z
      <-> forall k, node_of_entry (query_parts path ++ [k]) paths = false).
Proof.
  intros H. apply getattr_inv in H as (n & W & ->).
  pose proof (fun k => child_iff_entry paths _ _ k W) as C.
  destruct (keys n) as [|k0 ks] eqn:K.
  - assert (N : forall k, node_of_entry (query_parts path ++ [k]) paths = false).
    { intros k. destruct (node_of_entry _ paths) eqn:E; [|reflexivity].
      apply C in E. contradiction. }
    split; split; try discriminate; auto.
    intros [k Hk]. rewrite N in Hk. discriminate.
  - assert (Y : node_of_entry (query_parts path ++ [k0]) paths = true)
      by (apply C; now left).
    split; split; try discriminate; auto.
    + intros _. now exists k0.
    + intros N. rewrite N in Y. discriminate.
Qed.

Lemma getattr_nlink_iff_extended_witness :
  exists a,
    getattr (init ["x/y"; "x"]) "/x/y" None epoch = Ok a
    /\ (st_nlink a = 1%Z
        <-> forall k,
              node_of_entry (query_parts "/x/y" ++ [k]) ["x/y"; "x"] = false).
Proof.
  eexists. split; [reflexivity|].
  apply (getattr_nlink_iff_extended ["x/y"; "x"] "/x/y" None epoch _ eq_refl).
Defined.

(** X4.  The builder never makes a node named [.], and the queries do not
    skip that segment: in a built file system every query with a [.]
    segment raises [ENOENT], in [getattr] and in [readdir], although
    [readdir] lists [.] under every node. *)
Theorem dot_segment_not_found (paths : list string) (path : string)
    (fh : option Z) (now : float) :
  In "." (query_parts path) ->
  getattr (init paths) path fh now = Raise ENOENT
  /\ readdir (init paths) path fh = Raise ENOENT.
Proof.
  intros Hdot.
  assert (E : exists_at (query_parts path) (files (init paths)) = false).
  { rewrite exists_at_init. apply orb_false_iff. split.
    - unfold is_root. destruct (query_parts path); [contradiction | reflexivity].
    - unfold node_of_entry.
      destruct (existsb _ paths) eqn:X; [|reflexivity].
      apply existsb_exists in X as (p & _ & Hp).
      destruct (skip_dot_no_dot (split slash p)).
      apply (prefixb_In _ _ _ Hp Hdot). }
  pose proof (getattr_succeeds (init paths) path fh now) as G.
  pose proof (readdir_succeeds (init paths) path fh) as R.
  rewrite E in G, R. split.
  - destruct (getattr _ _ _ _) as [a|e] eqn:Hg; [discriminate|].
    now rewrite (getattr_raises_ENOENT _ _ _ _ _ Hg).
  - destruct (readdir _ _ _) as [a|e] eqn:Hr; [discriminate|].
    now rewrite (readdir_raises_ENOENT _ _ _ _ Hr).
Qed.

Lemma dot_segment_not_found_witness :
  In "." (query_parts "/./x")
  /\ readdir (init ["./x"]) "/" None = Ok ["."; ".."; "x"]
  /\ getattr (init ["./x"]) "/./x" None epoch = Raise ENOENT.
Proof.
  assert (H : In "." (query_parts "/./x")) by (simpl; tauto).
  split; [exact H|]. split; [reflexivity|].
  apply (dot_segment_not_found ["./x"] "/./x" None epoch H).
Defined.

(** X5.  Every name that [readdir] lists after [.] and [..] in a built
    file system is a segment of an entry: it holds no slash and it is not
    [.]. *)
Theorem listed_names_are_segments (paths : list string) (path : string)
    (fh : option Z) (names : list string) (k : string) :
  readdir (init paths) path fh = Ok names ->
  In k (skipn 2 names) ->
  has_char slash k = false /\ k <> "."
  /\ exists p, In p paths /\ In k (split slash p).
Proof.
  intros H Hk. apply readdir_inv in H as (n & W & ->). simpl in Hk.
  apply (child_iff_entry paths _ _ k W) in Hk.
  apply existsb_exists in Hk as (p & Hin & Hp).
  assert (Hs : In k (skip_dot (split slash p))).
  { apply (prefixb_In _ _ _ Hp). apply in_or_app. right. now left. }
  assert (Hsp : In k (split slash p)) by (now apply filter_In in Hs).
  split; [now apply (split_no_sep slash p)|]. split.
  - intros ->. now apply (skip_dot_no_dot (split slash p)).
  - now exists p.
Qed.

Lemma listed_names_are_segments_witness :
  readdir (init ["x/y z"; "x/.."]) "/x" None = Ok ["."; ".."; "y z"; ".."]
  /\ has_char slash "y z" = false /\ "y z" <> ".".
Proof.
  split; [reflexivity|].
  destruct (listed_names_are_segments ["x/y z"; "x/.."] "/x" None
              ["."; ".."; "y z"; ".."] "y z" eq_refl)
    as (H1 & H2 & _); [simpl; tauto|].
  split; assumption.
Defined.

(** ** Paths below paths *)

Lemma not_found_when_absent (self : MyFileSystem) (path : string)
    (fh : option Z) (now : float) :
  exists_at (query_parts path) (files self) = false ->
  getattr self path fh now = Raise ENOENT
  /\ readdir self path fh = Raise ENOENT.
Proof.
  intros E.
  pose proof (getattr_succeeds self path fh now) as G.
  pose proof (readdir_succeeds self path fh) as R.
  rewrite E in G, R. split.
  - destruct (getattr _ _ _ _) as [a|e] eqn:Hg; [discriminate|].
    now rewrite (getattr_raises_ENOENT _ _ _ _ _ Hg).
  - destruct (readdir _ _ _) as [a|e] eqn:Hr; [discriminate|].
    now rewrite (readdir_raises_ENOENT _ _ _ _ Hr).
Qed.

Lemma walk_app_inv (q r : list string) (t n : dict) :
  walk (q ++ r) t = Ok n ->
  exists m, walk q t = Ok m /\ walk r m = Ok n.
Proof.
  rewrite walk_app. destruct (walk q t) as [m|e]; [|discriminate].
  intros H. now exists m.
Qed.

(** X6.  In any file system, when [getattr] succeeds on [s1/s2] it
    succeeds on [s1] too, and if [s2] has a segment of its own the link
    count it reports for [s1] is 2. *)
Theorem getattr_parent_resolves (self : MyFileSystem) (s1 s2 : string)
    (fh : option Z) (now : float) (a : stat) :
  getattr self (s1 ++ "/" ++ s2)%string fh now = Ok a ->
  exists a',
    getattr self s1 fh now = Ok a'
    /\ (is_root s2 = false -> st_nlink a' = 2%Z).
Proof.
  intros H. apply getattr_inv in H as (n & W & _).
  rewrite query_parts_insert_slash in W.
  apply walk_app_inv in W as (m & W1 & W2).
  rewrite (getattr_of_walk self s1 fh now m W1).
  eexists. split; [reflexivity|]. simpl. unfold is_root.
  destruct (query_parts s2) as [|x q]; [discriminate|]. intros _.
  simpl in W2. unfold get in W2.
  destruct (items m); [discriminate | reflexivity].
Qed.

Lemma getattr_parent_resolves_witness :
  exists a',
    getattr (init ["x/y/z"]) "/x/y" None epoch = Ok a'
    /\ st_nlink a' = 2%Z.
Proof.
  destruct (getattr_parent_resolves (init ["x/y/z"]) "/x/y" "z" None epoch
              _ eq_refl) as (a' & H & N).
  exists a'. split; [exact H | apply N; reflexivity].
Defined.

(** X7.  In any file system, once [s1] resolves to a node, a query for
    [s1/s2] is answered as the query [s2] is in the file system whose root
    is that node. *)
Theorem subtree_answers (self : MyFileSystem) (s1 s2 : string)
    (fh : option Z) (now : float) (node : dict) :
  walk (query_parts s1) (files self) = Ok node ->
  getattr self (s1 ++ "/" ++ s2)%string fh now
  = getattr {| files := node |} s2 fh now
  /\ readdir self (s1 ++ "/" ++ s2)%string fh
     = readdir {| files := node |} s2 fh.
Proof.
  intros W. unfold getattr, readdir.
  now rewrite query_parts_insert_slash, walk_app, W.
Qed.

Lemma subtree_answers_witness :
  readdir (init ["x/y/z"; "x/y/w"; "v"]) "x/y" None
  = readdir {| files := Dict [("y", Dict [("z", Dict []); ("w", Dict [])])] |}
      "y" None
  /\ readdir (init ["x/y/z"; "x/y/w"; "v"]) "x/y" None
     = Ok ["."; ".."; "z"; "w"].
Proof.
  split; [|reflexivity].
  apply (subtree_answers (init ["x/y/z"; "x/y/w"; "v"]) "x" "y" None epoch
           (Dict [("y", Dict [("z", Dict []); ("w", Dict [])])]) eq_refl).
Defined.

(** ** One more entry *)

(** X8.  Running the builder's loop body for a path leaves the tree as it
    was exactly when the node for the path's kept segments was there
    already; in particular a path made of [.] segments alone never changes
    the tree. *)
Theorem insert_changes_iff_absent (t : dict) (p : string) :
  (insert_path t p = t
   <-> exists_at (skip_dot (split slash p)) t = true)
  /\ (skip_dot (split slash p) = [] -> insert_path t p = t).
Proof.
  assert (I : insert_path t p = t
              <-> exists_at (skip_dot (split slash p)) t = true).
  { split.
    - intros E. rewrite <- E. unfold insert_path.
      rewrite exists_at_insert_parts, prefixb_refl. apply orb_true_r.
    - apply insert_parts_present. }
  split; [exact I|]. intros E. apply I. now rewrite E.
Qed.

Lemma insert_changes_iff_absent_witness :
  insert_path (Dict [("x", Dict [])]) "././." = Dict [("x", Dict [])].
Proof.
  apply (proj2 (insert_changes_iff_absent (Dict [("x", Dict [])]) "././.")).
  reflexivity.
Defined.

Lemma insert_parts_grows (parts q : list string) (t n : dict) :
  walk q t = Ok n ->
  exists n' added,
    walk q (insert_parts parts t) = Ok n'
    /\ keys n' = keys n ++ added /\ length added <= 1.
Proof.
  revert t q n. induction parts as [|part rest IH]; intros t q n W; simpl.
  - exists n, []. rewrite app_nil_r. auto.
  - destruct (String.eqb part "."); [now apply IH|].
    destruct q as [|x q]; simpl in *.
    + injection W as <-.
      exists (Dict (descend part (insert_parts rest) (items t))).
      unfold keys; simpl. rewrite keys_descend.
      destruct (assoc part (items t)).
      * exists []. rewrite app_nil_r. auto.
      * exists [part]. auto.
    + unfold get in *. simpl. rewrite assoc_descend.
      destruct (assoc x (items t)) as [c|] eqn:G; [|discriminate].
      destruct (String.eqb part x) eqn:E.
      * apply String.eqb_eq in E; subst x. rewrite G. now apply IH.
      * exists n, []. rewrite app_nil_r. auto.
Qed.

Lemma fold_insert_grows (more q : list string) (t n : dict) :
  walk q t = Ok n ->
  exists n' added,
    walk q (fold_left insert_path more t) = Ok n'
    /\ keys n' = keys n ++ added /\ length added <= length more.
Proof.
  revert t n. induction more as [|p more IH]; intros t n W; simpl.
  - exists n, []. rewrite app_nil_r. auto.
  - destruct (insert_parts_grows (split slash p) q t n W)
      as (n1 & add1 & W1 & K1 & L1).
    destruct (IH _ _ W1) as (n2 & add2 & W2 & K2 & L2).
    exists n2, (add1 ++ add2). split; [exact W2|]. split.
    + now rewrite K2, K1, app_assoc.
    + rewrite length_app. lia.
Qed.

(** X9.  Entries added at the end of the input list never take a name out
    of a listing nor move one: what [readdir] returned for a path is a
    prefix of what it returns afterwards, and each added entry brings at
    most one new name to a given listing. *)
Theorem more_entries_extend_listings (paths more : list string)
    (path : string) (fh : option Z) (names : list string) :
  readdir (init paths) path fh = Ok names ->
  exists added,
    readdir (init (paths ++ more)) path fh = Ok (names ++ added)
    /\ length added <= length more.
Proof.
  intros H. apply readdir_inv in H as (n & W & ->).
  unfold init in *; simpl in *.
  destruct (fold_insert_grows more _ _ _ W) as (n' & added & W' & K & L).
  exists added. split; [|exact L].
  unfold readdir, expand_paths_to_dict; simpl.
  rewrite fold_left_app. fold (expand_paths_to_dict paths).
  now rewrite W', K.
Qed.

Lemma more_entries_extend_listings_witness :
  exists added,
    readdir (init (["x/y"; "z"] ++ ["x/w"; "x/y"])) "/x" None
    = Ok (["."; ".."; "y"] ++ added)
    /\ length added <= 2.
Proof.
  apply (more_entries_extend_listings ["x/y"; "z"] ["x/w"; "x/y"] "/x" None
           ["."; ".."; "y"] eq_refl).
Defined.

(** ** Lists of entries *)

Lemma node_of_entry_app (q : list string) (paths more : list string) :
  node_of_entry q (paths ++ more)
  = node_of_entry q paths || node_of_entry q more.
Proof. apply existsb_app. Qed.

Lemma node_of_entry_same_set (q : list string) (paths paths' : list string) :
  (forall p, In p paths <-> In p paths') ->
  node_of_entry q paths = node_of_entry q paths'.
Proof.
  intros S. unfold node_of_entry.
  destruct (existsb _ paths) eqn:E1; destruct (existsb _ paths') eqn:E2;
    try reflexivity.
  - apply existsb_exists in E1 as (p & Hin & Hp).
    rewrite <- E2. symmetry. apply existsb_exists. exists p.
    split; [now apply S | exact Hp].
  - apply existsb_exists in E2 as (p & Hin & Hp).
    rewrite <- E1. apply existsb_exists. exists p.
    split; [now apply S | exact Hp].
Qed.

(** X10.  The file system built from two lists put together resolves
    exactly the queries that the file system of one of the lists
    resolves. *)
Theorem joined_lists_resolve_union (paths more : list string)
    (path : string) (fh : option Z) (now : float) :
  succeeded (getattr (init (paths ++ more)) path fh now)
  = succeeded (getattr (init paths) path fh now)
    || succeeded (getattr (init more) path fh now)
  /\ succeeded (readdir (init (paths ++ more)) path fh)
     = succeeded (readdir (init paths) path fh)
       || succeeded (readdir (init more) path fh).
Proof.
  rewrite !getattr_succeeds, !readdir_succeeds, !exists_at_init.
  rewrite node_of_entry_app.
  destruct (is_root path), (node_of_entry _ paths), (node_of_entry _ more);
    split; reflexivity.
Qed.

(** X11.  What the built file system answers depends on which entries the
    input list holds, not on their order or on how often each occurs: for
    two lists with the same entries [getattr] returns the same outcome and
    [readdir] the same names, possibly in another order. *)
Theorem answers_depend_on_entry_set (paths paths' : list string)
    (path : string) (fh : option Z) (now : float) :
  (forall p, In p paths <-> In p paths') ->
  getattr (init paths) path fh now = getattr (init paths') path fh now
  /\ match readdir (init paths) path fh, readdir (init paths') path fh with
     | Ok names, Ok names' => Permutation names names'
     | Raise e, Raise e' => e = e'
     | _, _ => False
     end.
Proof.
  intros S.
  assert (E : forall r, exists_at r (expand_paths_to_dict paths)
                        = exists_at r (expand_paths_to_dict paths')).
  { intros r. rewrite !exists_at_expand.
    pose proof (node_of_entry_same_set r paths paths' S) as N.
    unfold node_of_entry in N. now rewrite N. }
  pose proof (E (query_parts path)) as Eq. unfold exists_at in Eq.
  unfold getattr, readdir, init; simpl.
  destruct (walk (query_parts path) (expand_paths_to_dict paths))
    as [n1|e1] eqn:W1;
    destruct (walk (query_parts path) (expand_paths_to_dict paths'))
      as [n2|e2] eqn:W2; try discriminate.
  - assert (P : Permutation (keys n1) (keys n2)).
    { apply NoDup_Permutation.
      - apply (keys_unique_expand _ _ _ W1).
      - apply (keys_unique_expand _ _ _ W2).
      - intros k. rewrite (In_keys_exists_at _ _ _ k W1).
        rewrite (In_keys_exists_at _ _ _ k W2). now rewrite E. }
    split.
    + apply Permutation_length in P. unfold keys in P.
      rewrite !length_map in P. unfold len. now rewrite P.
    + now repeat apply perm_skip.
  - rewrite (walk_raises_ENOENT _ _ _ W1), (walk_raises_ENOENT _ _ _ W2).
    split; reflexivity.
Qed.

Lemma answers_depend_on_entry_set_witness :
  getattr (init ["x"; "y/z"; "x"]) "/y" None epoch
  = getattr (init ["y/z"; "x"]) "/y" None epoch
  /\ readdir (init ["x"; "y/z"; "x"]) "/" None = Ok ["."; ".."; "x"; "y"]
  /\ readdir (init ["y/z"; "x"]) "/" None = Ok ["."; ".."; "y"; "x"].
Proof.
  split; [|split; reflexivity].
  apply (answers_depend_on_entry_set ["x"; "y/z"; "x"] ["y/z"; "x"]
           "/y" None epoch).
  intros p; simpl; tauto.
Defined.

(** X12.  In any file system [getattr] and [readdir] succeed on the same
    paths, and the link count of a path is 2 exactly when its listing has a
    name after [.] and [..]. *)
Theorem getattr_agrees_with_readdir (self : MyFileSystem) (path : string)
    (fh fh' : option Z) (now : float) :
  succeeded (getattr self path fh now) = succeeded (readdir self path fh')
  /\ forall a names,
       getattr self path fh now = Ok a ->
       readdir self path fh' = Ok names ->
       (st_nlink a = 2%Z <-> 2 < length names)
       /\ (st_nlink a = 1%Z <-> names = ["."; ".."]).
Proof.
  split; [now rewrite getattr_succeeds, readdir_succeeds|].
  intros a names Hg Hr.
  apply getattr_inv in Hg as (n & W & ->).
  apply readdir_inv in Hr as (n' & W' & ->).
  rewrite W in W'. injection W' as <-.
  destruct (keys n); simpl; split; split; try discriminate; try lia; auto.
Qed.

Lemma getattr_agrees_with_readdir_witness :
  exists a,
    getattr (init ["x/y"]) "/x" None epoch = Ok a
    /\ readdir (init ["x/y"]) "/x" None = Ok ["."; ".."; "y"]
    /\ (st_nlink a = 2%Z <-> 2 < length ["."; ".."; "y"]).
Proof.
  eexists. split; [reflexivity|]. split; [reflexivity|].
  apply (proj2 (getattr_agrees_with_readdir (init ["x/y"]) "/x" None None
                  epoch) _ _ eq_refl eq_refl).
Defined.

(** ** Entries as the program receives them *)

Lemma starts_with_slash (p : string) :
  String.prefix "/" p = true -> exists s, p = String slash s.
Proof.
  destruct p as [|c s]; cbn [String.prefix]; [discriminate|].
  destruct (ascii_dec "/" c) as [<-|]; [|discriminate].
  intros _. now exists s.
Qed.

(** X13.  When every entry of the input list begins with a slash, the
    built file system resolves the root and nothing else: every query with
    a segment raises [ENOENT], since the entries hang under a top-level
    node named with the empty string. *)
Theorem leading_slash_entries_unreachable (paths : list string)
    (path : string) (fh : option Z) (now : float) :
  forallb (String.prefix "/") paths = true ->
  is_root path = false ->
  getattr (init paths) path fh now = Raise ENOENT
  /\ readdir (init paths) path fh = Raise ENOENT.
Proof.
  intros Hall Hroot. apply not_found_when_absent.
  rewrite exists_at_init, Hroot. simpl. unfold node_of_entry.
  destruct (existsb _ paths) eqn:X; [|reflexivity].
  apply existsb_exists in X as (p & Hin & Hp).
  rewrite forallb_forall in Hall.
  destruct (starts_with_slash p (Hall p Hin)) as [s ->].
  unfold is_root in Hroot.
  destruct (query_parts path) as [|x q] eqn:Q; [discriminate|].
  assert (Hx : truthy x = true)
    by (apply (query_parts_truthy path); rewrite Q; now left).
  simpl in Hp. destruct x; [discriminate Hx | discriminate Hp].
Qed.

Lemma leading_slash_entries_unreachable_witness :
  readdir (init ["/x"; "/y/z"]) "/" None = Ok ["."; ".."; ""]
  /\ getattr (init ["/x"; "/y/z"]) "/x" None epoch = Raise ENOENT.
Proof.
  split; [reflexivity|].
  apply (leading_slash_entries_unreachable ["/x"; "/y/z"] "/x" None epoch);
    reflexivity.
Defined.




